(** * The EduPath chat widget (src/components/ChatBot.tsx)

    A shallow embedding of the [ChatBot] component: the generation client
    [getAIResponse], the submit handler [handleSend] split at its [await],
    the keyboard handler, the rendered controls and the other state
    setters of the component, and the menu state of the navigation bar
    (src/components/Navbar.tsx), followed by the properties of the
    conversation log that the specification states and by further
    properties read off the code. *)

From Stdlib Require Import ZArith NArith List String Ascii Lia.
From Stdlib Require Import Floats.SpecFloat.
From stdpp Require Import base option list numbers pretty.

Set Warnings "-register-all".

Local Open Scope Z_scope.

(** ** JavaScript strings

    A JavaScript string is a sequence of UTF-16 code units; [trim] is
    defined on code units, so the embedding keeps them. *)

Definition code_unit := N.
Definition js_string := list code_unit.

(** An ASCII literal of the source, as code units. *)
Definition lit (s : string) : js_string :=
  map N_of_ascii (list_ascii_of_string s).

Definition LF : code_unit := 10%N.
(** U+2022, the bullet of the study tips. *)
Definition bullet : code_unit := 8226%N.

(** WhiteSpace and LineTerminator of ECMAScript, the code units that
    [String.prototype.trim] strips. *)
Definition is_white_space (c : code_unit) : bool :=
  ((9 <=? c) && (c <=? 13) || (c =? 32) || (c =? 160) || (c =? 5760)
   || (8192 <=? c) && (c <=? 8202) || (c =? 8232) || (c =? 8233)
   || (c =? 8239) || (c =? 8287) || (c =? 12288) || (c =? 65279))%N.

Fixpoint trimStart (s : js_string) : js_string :=
  match s with
  | c :: s' => if is_white_space c then trimStart s' else s
  | [] => []
  end.

Definition trimEnd (s : js_string) : js_string := rev (trimStart (rev s)).

Definition trim (s : js_string) : js_string := trimEnd (trimStart s).

(** [Number.prototype.toString] on an integer-valued number; [Date.now()]
    stays far below 1e21, where JavaScript prints plain decimal digits. *)
Definition toString (n : Z) : js_string := lit (pretty n).

(** ** Decoded JSON and JavaScript values *)

Inductive json : Type :=
| JNull
| JBool (b : bool)
| JNumber (x : spec_float)
| JString (s : js_string)
| JArray (xs : list json)
| JObject (members : list (js_string * json)).

(** A JavaScript value that the component handles: [None] is [undefined]. *)
Definition value := option json.

Definition str (s : js_string) : value := Some (JString s).

(** The property names that the source reads with a dot. None of them is
    defined on a built-in prototype, so on a decoded body they are own data
    properties or [undefined]. *)
Inductive prop_name := p_candidates | p_content | p_parts | p_text.

Definition name_of (p : prop_name) : js_string :=
  match p with
  | p_candidates => lit "candidates"
  | p_content => lit "content"
  | p_parts => lit "parts"
  | p_text => lit "text"
  end.

Inductive key :=
| Named (p : prop_name)
| Index (i : nat).

(** The own property of an object built by [JSON.parse]: of two members
    with one name the later one is kept. *)
Fixpoint own_property (n : js_string) (ms : list (js_string * json)) : value :=
  match ms with
  | [] => None
  | (k, v) :: ms' =>
      match own_property n ms' with
      | Some w => Some w
      | None => if decide (k = n) then Some v else None
      end
  end.

(** [v[k]] on a value that is neither [null] nor [undefined]. *)
Definition get_prop (v : json) (k : key) : value :=
  match v, k with
  | JObject ms, Named p => own_property (name_of p) ms
  | JObject ms, Index i => own_property (toString (Z.of_nat i)) ms
  | JArray xs, Index i => xs !! i
  | JString s, Index i => (fun c => JString [c]) <$> s !! i
  | _, _ => None
  end.

(** ToBoolean. *)
Definition truthy (v : value) : bool :=
  match v with
  | None | Some JNull => false
  | Some (JBool b) => b
  | Some (JNumber (S754_zero _)) | Some (JNumber S754_nan) => false
  | Some (JNumber _) => true
  | Some (JString s) => negb (bool_decide (s = []))
  | Some (JArray _) | Some (JObject _) => true
  end.

(** ** Exceptions *)

Inductive error :=
| TypeError (msg : js_string)
| SyntaxError (msg : js_string)
| OtherError (msg : js_string).

Inductive result (A : Type) : Type :=
| Ok (a : A)
| Throw (e : error).
Arguments Ok {A} a.
Arguments Throw {A} e.

Definition bind {A B} (r : result A) (f : A -> result B) : result B :=
  match r with
  | Ok a => f a
  | Throw e => Throw e
  end.

Notation "'let*' x ':=' r 'in' k" := (bind r (fun x => k))
  (at level 10, x name, r at level 100, k at level 200).

(** [o.k]: reading a property of [null] or [undefined] throws. *)
Definition member (o : value) (k : key) : result value :=
  match o with
  | None | Some JNull =>
      Throw (TypeError (lit "Cannot read properties of null or undefined"))
  | Some v => Ok (get_prop v k)
  end.

(** [o?.k] *)
Definition opt_member (o : value) (k : key) : value :=
  match o with
  | None | Some JNull => None
  | Some v => get_prop v k
  end.

(** ** The generation client *)

Definition no_key_fallback : js_string :=
  lit "I'm here to help! To enable AI-powered responses, please add your Gemini API key to the .env file. In the meantime, I can provide general study tips:"
  ++ [LF; LF; bullet] ++ lit " Create a study schedule and stick to it"
  ++ [LF; bullet] ++ lit " Practice regularly with mock tests"
  ++ [LF; bullet] ++ lit " Focus on understanding concepts, not just memorization"
  ++ [LF; bullet] ++ lit " Take regular breaks to avoid burnout"
  ++ [LF; bullet] ++ lit " Review your mistakes and learn from them"
  ++ [LF; LF] ++ lit "What specific topic would you like help with?".

Definition trouble_fallback : js_string :=
  lit "I apologize, but I'm having trouble generating a response right now. Please try rephrasing your question.".

Definition technical_fallback : js_string :=
  lit "I'm experiencing some technical difficulties. Please try again in a moment.".

Definition prompt (userMessage : js_string) : js_string :=
  lit "You are an expert educational assistant for students preparing for JEE (Joint Entrance Examination), NEET (National Eligibility cum Entrance Test), and BTech courses. Your role is to help students understand concepts, solve doubts, and provide study guidance."
  ++ [LF; LF] ++ lit "Context: The student is using EduPath, an educational platform."
  ++ [LF; LF] ++ lit "Student's question: " ++ userMessage
  ++ [LF; LF] ++ lit "Please provide a clear, concise, and helpful response. If the question is about a specific subject (Physics, Chemistry, Mathematics, Biology), provide detailed explanations with examples where appropriate.".

(** The argument of [fetch]; [body] is the value handed to
    [JSON.stringify]. *)
Record Request := {
  url : js_string;
  method : js_string;
  headers : list (js_string * js_string);
  body : json;
}.

Definition gemini_request (apiKey userMessage : js_string) : Request :=
  {| url := lit "https://generativelanguage.googleapis.com/v1beta/models/gemini-pro:generateContent?key=" ++ apiKey;
     method := lit "POST";
     headers := [(lit "Content-Type", lit "application/json")];
     body := JObject [(lit "contents",
               JArray [JObject [(lit "parts",
                 JArray [JObject [(lit "text", JString (prompt userMessage))]])]])] |}.

(** What [fetch] resolves with: the status line, which the source never
    looks at, and how [response.json()] settles. *)
Record Response := {
  status : N;
  json_body : result json;
}.

(** How the awaited [fetch] settles. *)
Definition fetch_outcome := result Response.

Inductive effect :=
| Fetch (req : Request)
| CallClient (userText : value)
| ConsoleError (label : js_string) (e : error).

(** How a promise settles. *)
Inductive settled :=
| Fulfilled (v : value)
| Rejected (e : error).

(** [!apiKey] on [import.meta.env.VITE_GEMINI_API_KEY]: unset or empty. *)
Definition key_configured (apiKey : option js_string) : bool :=
  match apiKey with
  | Some (_ :: _) => true
  | _ => false
  end.

(** [data.candidates && data.candidates[0]?.content?.parts?.[0]?.text] *)
Definition shape_test (data : json) : result value :=
  let* c := member (Some data) (Named p_candidates) in
  if truthy c then
    let* c' := member (Some data) (Named p_candidates) in
    let* c0 := member c' (Index 0) in
    Ok (opt_member (opt_member (opt_member (opt_member c0 (Named p_content))
                      (Named p_parts)) (Index 0)) (Named p_text))
  else Ok c.

(** [data.candidates[0].content.parts[0].text] *)
Definition shape_read (data : json) : result value :=
  let* c := member (Some data) (Named p_candidates) in
  let* c0 := member c (Index 0) in
  let* x := member c0 (Named p_content) in
  let* p := member x (Named p_parts) in
  let* p0 := member p (Index 0) in
  member p0 (Named p_text).

(** The [try] block after the request was issued. *)
Definition try_block (net : fetch_outcome) : result value :=
  let* response := net in
  let* data := json_body response in
  let* t := shape_test data in
  if truthy t then shape_read data
  else Ok (str trouble_fallback).

Definition getAIResponse (apiKey : option js_string) (net : fetch_outcome)
    (userMessage : js_string) : settled * list effect :=
  if negb (key_configured apiKey) then
    (Fulfilled (str no_key_fallback), [])
  else
    let req := gemini_request (default [] apiKey) userMessage in
    match try_block net with
    | Ok v => (Fulfilled v, [Fetch req])
    | Throw e =>
        (Fulfilled (str technical_fallback),
         [Fetch req; ConsoleError (lit "Error calling Gemini API:") e])
    end.

(** ** The widget *)

Inductive Role := user | assistant.

(** [timestamp] is the [Date] in milliseconds. [content] is declared a
    string; what the gateway sends is stored unchecked. *)
Record Message := {
  id : js_string;
  role : Role;
  content : value;
  timestamp : Z;
}.

(** The four [useState] cells of the component and, in [pending], the
    arguments of the [getAIResponse] calls that [handleSend] is awaiting. *)
Record Widget := {
  isOpen : bool;
  messages : list Message;
  input : js_string;
  isLoading : bool;
  pending : list js_string;
}.

Definition greeting : js_string :=
  lit "Hi! I'm your EduPath study assistant. I can help you with JEE, NEET, and BTech subjects. What would you like to know?".

Definition seed (t0 : Z) : Message :=
  {| id := lit "1"; role := assistant; content := str greeting; timestamp := t0 |}.

(** The component mounted at time [t0]. *)
Definition init (t0 : Z) : Widget :=
  {| isOpen := false; messages := [seed t0]; input := []; isLoading := false;
     pending := [] |}.

Definition setIsOpen (b : bool) (w : Widget) : Widget :=
  {| isOpen := b; messages := messages w; input := input w;
     isLoading := isLoading w; pending := pending w |}.

Definition setInput (s : js_string) (w : Widget) : Widget :=
  {| isOpen := isOpen w; messages := messages w; input := s;
     isLoading := isLoading w; pending := pending w |}.

Definition setIsLoading (b : bool) (w : Widget) : Widget :=
  {| isOpen := isOpen w; messages := messages w; input := input w;
     isLoading := b; pending := pending w |}.

(** [setMessages((prev) => [...prev, m])] *)
Definition appendMessage (m : Message) (w : Widget) : Widget :=
  {| isOpen := isOpen w; messages := messages w ++ [m]; input := input w;
     isLoading := isLoading w; pending := pending w |}.

Definition setPending (p : list js_string) (w : Widget) : Widget :=
  {| isOpen := isOpen w; messages := messages w; input := input w;
     isLoading := isLoading w; pending := p |}.

(** [handleSend] up to its [await]; [now] is what [Date.now()] reads and
    [ts] what [new Date()] reads. *)
Definition handleSend (now ts : Z) (w : Widget) : Widget * list effect :=
  if negb (truthy (str (trim (input w)))) || isLoading w then (w, [])
  else
    let userMessage :=
      {| id := toString now; role := user; content := str (trim (input w));
         timestamp := ts |} in
    (setPending (pending w ++ [trim (input w)])
       (setIsLoading true (setInput [] (appendMessage userMessage w))),
     [CallClient (content userMessage)]).

(** [handleSend] from the point where the awaited call has settled. *)
Definition handleSend_settled (r : settled) (now ts : Z) (w : Widget)
    : Widget * list effect :=
  match r with
  | Fulfilled aiResponse =>
      let assistantMessage :=
        {| id := toString (now + 1); role := assistant; content := aiResponse;
           timestamp := ts |} in
      (setIsLoading false (appendMessage assistantMessage w), [])
  | Rejected e =>
      (setIsLoading false w, [ConsoleError (lit "Error getting AI response:") e])
  end.

Inductive event :=
| Open
| Close
| UpdateDraft (s : js_string)
| Submit (now ts : Z)
| Settle (k : nat) (r : settled) (now ts : Z).

(** One handler run on the committed state. [Settle k] resumes the
    [handleSend] that awaits the [k]-th pending call. *)
Definition step (w : Widget) (ev : event) : Widget * list effect :=
  match ev with
  | Open => (setIsOpen true w, [])
  | Close => (setIsOpen false w, [])
  | UpdateDraft s => (setInput s w, [])
  | Submit now ts => handleSend now ts w
  | Settle k r now ts =>
      match pending w !! k with
      | Some _ => handleSend_settled r now ts (setPending (delete k (pending w)) w)
      | None => (w, [])
      end
  end.

Fixpoint run (w : Widget) (evs : list event) : Widget * list effect :=
  match evs with
  | [] => (w, [])
  | ev :: evs' =>
      let '(w1, eff1) := step w ev in
      let '(w2, eff2) := run w1 evs' in
      (w2, eff1 ++ eff2)
  end.

(** The [k]-th pending call settles the way [getAIResponse] settles when
    the network answers with [net]. *)
Definition arrive (apiKey : option js_string) (net : fetch_outcome) (k : nat)
    (now ts : Z) (w : Widget) : Widget * list effect :=
  match pending w !! k with
  | Some userText =>
      let '(r, eff) := getAIResponse apiKey net userText in
      let '(w', eff') := step w (Settle k r now ts) in
      (w', eff ++ eff')
  | None => (w, [])
  end.

Inductive reachable (t0 : Z) : Widget -> Prop :=
| reach_init : reachable t0 (init t0)
| reach_step w ev : reachable t0 w -> reachable t0 (step w ev).1.

Definition is_settle (ev : event) : bool :=
  match ev with
  | Settle _ _ _ _ => true
  | _ => false
  end.

(** ** The expected response shape, read from the specification

    The value found by following a path of property reads from a decoded
    body, [undefined] as soon as one step is missing. *)
Fixpoint value_at (path : list key) (v : value) : value :=
  match path with
  | [] => v
  | k :: path' =>
      match v with
      | None | Some JNull => None
      | Some x => value_at path' (get_prop x k)
      end
  end.

(** [candidates[0].content.parts[0].text] *)
Definition text_path : list key :=
  [Named p_candidates; Index 0; Named p_content; Named p_parts; Index 0;
   Named p_text].

(** The reads of a path one after the other, without [?.]. *)
Fixpoint read_path (path : list key) (v : value) : result value :=
  match path with
  | [] => Ok v
  | k :: path' => let* x := member v k in read_path path' x
  end.




(** ** The concurrency discipline *)

(** Busy exactly while one call is pending. *)
Definition one_round_trip (w : Widget) : Prop :=
  length (pending w) = if isLoading w then 1%nat else 0%nat.

(** ** The rendered controls and the keyboard handler *)

(** [disabled={!input.trim() || isLoading}] on the send button. *)
Definition send_disabled (w : Widget) : bool :=
  negb (truthy (str (trim (input w)))) || isLoading w.

(** The two fields of the keyboard event that [handleKeyPress] reads,
    [e.key] and [e.shiftKey]. *)
Record KeyboardEvent := {
  e_key : js_string;
  shiftKey : bool;
}.

(** [handleKeyPress]: the first component tells whether
    [e.preventDefault()] was called. *)
Definition handleKeyPress (e : KeyboardEvent) (now ts : Z) (w : Widget)
    : bool * (Widget * list effect) :=
  if bool_decide (e_key e = lit "Enter") && negb (shiftKey e)
  then (true, handleSend now ts w)
  else (false, (w, [])).

(** [disabled={isLoading}] on the text input. *)
Definition input_disabled (w : Widget) : bool := isLoading w.

(** The states reached when the draft is edited through the text input
    only, which fires no change event while it is disabled. *)
Inductive ui_reachable (t0 : Z) : Widget -> Prop :=
| ui_init : ui_reachable t0 (init t0)
| ui_step w ev :
    ui_reachable t0 w ->
    (forall s, ev = UpdateDraft s -> input_disabled w = false) ->
    ui_reachable t0 (step w ev).1.

(** ** The widget with its client *)

(** The states the widget reaches when every pending call settles the
    way [getAIResponse] settles it. *)
Inductive client_reachable (apiKey : option js_string) (t0 : Z)
    : Widget -> Prop :=
| creach_init : client_reachable apiKey t0 (init t0)
| creach_step w ev :
    client_reachable apiKey t0 w -> is_settle ev = false ->
    client_reachable apiKey t0 (step w ev).1
| creach_arrive w net k now ts :
    client_reachable apiKey t0 w ->
    client_reachable apiKey t0 (arrive apiKey net k now ts w).1.

(** The greeting followed by [n] completed exchanges. *)
Definition turns (n : nat) : list Role :=
  assistant :: concat (replicate n [user; assistant]).

#[global] Instance Role_eq_dec : EqDecision Role.
Proof. solve_decision. Defined.

(** The contents of the user messages of a log, oldest first. *)
Definition user_texts (ms : list Message) : list value :=
  content <$> filter (fun m => role m = user) ms.

(** The arguments of the client calls in an effect trace. *)
Definition calls (effs : list effect) : list value :=
  omap (fun eff => match eff with CallClient u => Some u | _ => None end) effs.

(** The requests in an effect trace. *)
Definition requests (effs : list effect) : list Request :=
  omap (fun eff => match eff with Fetch r => Some r | _ => None end) effs.

Definition is_visibility (ev : event) : bool :=
  match ev with
  | Open | Close => true
  | _ => false
  end.

(** What [setIsOpen] calls of a trace leave in [isOpen]. *)
Definition visibility_after (b : bool) (evs : list event) : bool :=
  fold_left (fun b ev => match ev with
                         | Open => true
                         | Close => false
                         | _ => b
                         end) evs b.

(** Every clock reading of a trace gives an id above the ids given so
    far, [bound] being the largest of them. *)
Fixpoint fresh_clock (bound : Z) (evs : list event) : bool :=
  match evs with
  | [] => true
  | Submit now _ :: evs' => (bound <? now) && fresh_clock now evs'
  | Settle _ _ now _ :: evs' => (bound <=? now) && fresh_clock (now + 1) evs'
  | _ :: evs' => fresh_clock bound evs'
  end.

(** ** The navigation bar (src/components/Navbar.tsx) *)

Module Navbar.

(** The two handlers of the bar: the one of the menu button and the one
    of the links of the mobile menu. *)
Inductive event := ToggleMenu | MobileLink.

(** The [isMenuOpen] cell after one handler. *)
Definition step (isMenuOpen : bool) (ev : event) : bool :=
  match ev with
  | ToggleMenu => negb isMenuOpen
  | MobileLink => false
  end.

Definition run (isMenuOpen : bool) (evs : list event) : bool :=
  fold_left step evs isMenuOpen.

(** The toggles after the last mobile link of a trace, and whether there
    was such a link. *)
Fixpoint toggles_since_link (evs : list event) : nat * bool :=
  match evs with
  | [] => (0%nat, false)
  | ev :: evs' =>
      let '(n, linked) := toggles_since_link evs' in
      match ev with
      | ToggleMenu => if linked then (n, true) else (S n, false)
      | MobileLink => (n, true)
      end
  end.

End Navbar.

(** * Properties *)

(** ** Reading the response shape *)

Lemma shape_read_path data : shape_read data = read_path text_path (Some data).
Proof.
  unfold shape_read, text_path; simpl.
  repeat match goal with
         | |- context [bind ?r _] => destruct r; simpl; [|reflexivity]
         end.
  reflexivity.
Qed.

Lemma value_at_undefined path : value_at path None = None.
Proof. by destruct path. Qed.

Lemma value_at_opt_member k path o :
  value_at (k :: path) o = value_at path (opt_member o k).
Proof. destruct o as [[]|]; simpl; by rewrite ?value_at_undefined. Qed.

(** A path that leads to a truthy value can be read without [?.]. *)
Lemma read_path_truthy path : forall v,
  truthy (value_at path v) = true -> read_path path v = Ok (value_at path v).
Proof.
  induction path as [|k path IH]; intros v Hv; [done|].
  destruct v as [x|]; [|done].
  destruct x; try done; simpl in *; by apply IH.
Qed.

(** A falsy value has no element 0. *)
Lemma falsy_first c : truthy c = false -> opt_member c (Index 0) = None.
Proof.
  destruct c as [[| |x|s| |]|]; simpl; try done.
  destruct s; [done|]. by rewrite bool_decide_eq_false_2.
Qed.

Lemma shape_test_value_at data :
  data <> JNull ->
  exists t, shape_test data = Ok t
    /\ truthy t = truthy (value_at text_path (Some data))
    /\ (truthy t = true -> t = value_at text_path (Some data)).
Proof.
  intros Hdata. unfold shape_test, text_path.
  assert (Hm : member (Some data) (Named p_candidates)
               = Ok (get_prop data (Named p_candidates))) by by destruct data.
  rewrite Hm; simpl bind.
  set (c := get_prop data (Named p_candidates)).
  assert (Hv : forall p, value_at (Named p_candidates :: p) (Some data)
                         = value_at p c) by by destruct data.
  destruct (truthy c) eqn:Hc.
  - assert (Hc0 : member c (Index 0) = Ok (opt_member c (Index 0))).
    { destruct c as [[]|]; simpl in *; done. }
    rewrite Hc0; simpl bind. eexists; split; [done|].
    rewrite Hv, !value_at_opt_member. simpl. done.
  - exists c. split; [done|]. rewrite Hv, value_at_opt_member.
    rewrite (falsy_first c Hc), value_at_undefined, Hc. done.
Qed.

(** What the [try] block computes from a body that decodes to something
    other than [null]. *)
Lemma try_block_decoded st data :
  data <> JNull ->
  try_block (Ok {| status := st; json_body := Ok data |})
  = Ok (if truthy (value_at text_path (Some data))
        then value_at text_path (Some data)
        else str trouble_fallback).
Proof.
  intros Hdata. unfold try_block; cbn [bind json_body].
  destruct (shape_test_value_at data Hdata) as (t & -> & Ht & _).
  cbn [bind]; rewrite Ht. destruct (truthy (value_at _ _)) eqn:Hv; [|done].
  rewrite shape_read_path. by apply read_path_truthy.
Qed.

Lemma try_block_null st :
  try_block (Ok {| status := st; json_body := Ok JNull |})
  = Throw (TypeError (lit "Cannot read properties of null or undefined")).
Proof. reflexivity. Qed.

Lemma fallbacks_differ :
  trouble_fallback <> technical_fallback
  /\ no_key_fallback <> trouble_fallback
  /\ no_key_fallback <> technical_fallback.
Proof.
  repeat split; intros H; apply (f_equal length) in H; vm_compute in H;
    discriminate.
Qed.

(** ** The generation client *)

Lemma getAIResponse_no_key apiKey net userMessage :
  key_configured apiKey = false ->
  getAIResponse apiKey net userMessage = (Fulfilled (str no_key_fallback), []).
Proof. intros Hkey. unfold getAIResponse. by rewrite Hkey. Qed.

(** The promise of [getAIResponse] is never rejected. *)
Lemma getAIResponse_fulfilled apiKey net userMessage :
  exists v, (getAIResponse apiKey net userMessage).1 = Fulfilled v.
Proof.
  unfold getAIResponse. destruct (key_configured apiKey); simpl; [|eauto].
  destruct (try_block net); simpl; eauto.
Qed.

Lemma json_null_dec (data : json) : {data = JNull} + {data <> JNull}.
Proof. destruct data; by (left + right). Qed.

(** C3: with no credential configured (the variable unset or empty),
    [getAIResponse] answers every text with the fixed study-tips string, a
    multi-line text with five bullets, and issues no request. *)
Theorem no_credential_study_tips apiKey net userMessage :
  key_configured apiKey = false ->
  getAIResponse apiKey net userMessage = (Fulfilled (str no_key_fallback), [])
  /\ length (filter (fun c => c = bullet) no_key_fallback) = 5%nat
  /\ LF ∈ no_key_fallback.
Proof.
  intros Hkey. split; [by apply getAIResponse_no_key|].
  split; [reflexivity|]. apply (bool_decide_unpack _). by vm_compute.
Qed.

Lemma no_credential_study_tips_witness :
  key_configured None = false
  /\ getAIResponse None (Throw (OtherError [])) (lit "How do I study for NEET?")
     = (Fulfilled (str no_key_fallback), []).
Proof.
  split; [reflexivity|].
  apply (no_credential_study_tips None (Throw (OtherError []))
           (lit "How do I study for NEET?")).
  reflexivity.
Defined.


(** C10, as the claim states it, fails on a body that parses to [null]:
    [fetch] resolved and the body parsed, there is no text in it, and the
    answer is the technical-difficulties apology. *)
Lemma parsed_null_is_technical :
  let net := Ok {| status := 400; json_body := Ok JNull |} in
  truthy (value_at text_path (Some JNull)) = false
  /\ (getAIResponse (Some (lit "key")) net (lit "hello")).1
     = Fulfilled (str technical_fallback)
  /\ technical_fallback <> trouble_fallback.
Proof.
  split; [reflexivity|]. split; [reflexivity|].
  intros H. by apply fallbacks_differ.
Qed.


Section Configured.

(** A credential is configured: the request is issued. *)
Context (apiKey : option js_string) (userMessage : js_string).
Hypothesis Hkey : key_configured apiKey = true.

Lemma getAIResponse_key net :
  getAIResponse apiKey net userMessage
  = let req := gemini_request (default [] apiKey) userMessage in
    match try_block net with
    | Ok v => (Fulfilled v, [Fetch req])
    | Throw e =>
        (Fulfilled (str technical_fallback),
         [Fetch req; ConsoleError (lit "Error calling Gemini API:") e])
    end.
Proof. unfold getAIResponse. by rewrite Hkey. Qed.


(** C5: with a credential configured, when [fetch] rejects or the body
    does not parse, [getAIResponse] catches the error, logs it with
    [console.error] and resolves with the technical-difficulties apology;
    whatever the network does, its promise is fulfilled, never rejected. *)
Theorem gateway_failure_is_caught net e :
  (net = Throw e \/ exists st, net = Ok {| status := st; json_body := Throw e |}) ->
  getAIResponse apiKey net userMessage
  = (Fulfilled (str technical_fallback),
     [Fetch (gemini_request (default [] apiKey) userMessage);
      ConsoleError (lit "Error calling Gemini API:") e])
  /\ forall net', exists v,
       (getAIResponse apiKey net' userMessage).1 = Fulfilled v.
Proof.
  intros Hnet. split; [|intros; apply getAIResponse_fulfilled].
  rewrite getAIResponse_key.
  by destruct Hnet as [-> | [st ->]].
Qed.

(** C10 (amended): for every response, of any status, whose body parses to
    something other than [null] and holds no truthy value at
    [candidates[0].content.parts[0].text], [getAIResponse] returns the
    rephrase apology, which differs from the technical-difficulties one;
    and the technical-difficulties string is returned only when [fetch]
    rejects, the body does not parse, the body parses to [null], or the
    gateway text is that very string. *)
Theorem unparsed_or_rejected_only net :
  let r := (getAIResponse apiKey net userMessage).1 in
  (forall st data,
     net = Ok {| status := st; json_body := Ok data |} ->
     data <> JNull ->
     truthy (value_at text_path (Some data)) = false ->
     r = Fulfilled (str trouble_fallback))
  /\ trouble_fallback <> technical_fallback
  /\ (r = Fulfilled (str technical_fallback) ->
      (exists e, net = Throw e)
      \/ (exists st e, net = Ok {| status := st; json_body := Throw e |})
      \/ (exists st, net = Ok {| status := st; json_body := Ok JNull |})
      \/ (exists st data,
            net = Ok {| status := st; json_body := Ok data |}
            /\ value_at text_path (Some data) = str technical_fallback)).
Proof.
  intros r. subst r. rewrite getAIResponse_key.
  split; [|split; [apply fallbacks_differ|]].
  - intros st data -> Hdata Hv. rewrite try_block_decoded by done.
    by rewrite Hv.
  - destruct net as [[st [data|e]]|e]; [|by eauto 6|by eauto].
    destruct (json_null_dec data) as [->|Hdata]; [by eauto 6|].
    rewrite try_block_decoded by done. cbn [fst].
    destruct (truthy _) eqn:Hv; [|by intros [= H]].
    intros [= H]. right; right; right. by exists st, data.
Qed.

End Configured.


Lemma gateway_failure_is_caught_witness :
  key_configured (Some (lit "key")) = true
  /\ (getAIResponse (Some (lit "key"))
        (Throw (TypeError (lit "Failed to fetch"))) (lit "hello")).1
     = Fulfilled (str technical_fallback).
Proof.
  split; [reflexivity|].
  destruct (gateway_failure_is_caught (Some (lit "key")) (lit "hello")
              eq_refl (Throw (TypeError (lit "Failed to fetch")))
              (TypeError (lit "Failed to fetch"))
              (or_introl eq_refl)) as [H _].
  by rewrite H.
Defined.

Lemma unparsed_or_rejected_only_witness :
  key_configured (Some (lit "key")) = true
  /\ (getAIResponse (Some (lit "key"))
        (Ok {| status := 400; json_body := Ok (JObject []) |})
        (lit "hello")).1
     = Fulfilled (str trouble_fallback).
Proof.
  split; [reflexivity|].
  destruct (unparsed_or_rejected_only (Some (lit "key")) (lit "hello")
              eq_refl
              (Ok {| status := 400; json_body := Ok (JObject []) |}))
    as [H _].
  apply (H 400%N (JObject [])); [reflexivity | discriminate | reflexivity].
Defined.

(** ** The widget *)

Lemma handleSend_blocked now ts w :
  isLoading w = true \/ trim (input w) = [] ->
  handleSend now ts w = (w, []).
Proof.
  intros [Hbusy | Hempty]; unfold handleSend.
  - rewrite Hbusy. by rewrite orb_true_r.
  - by rewrite Hempty.
Qed.

Lemma handleSend_accepted now ts w :
  isLoading w = false -> trim (input w) <> [] ->
  handleSend now ts w
  = (setPending (pending w ++ [trim (input w)])
       (setIsLoading true (setInput []
          (appendMessage {| id := toString now; role := user;
                            content := str (trim (input w));
                            timestamp := ts |} w))),
     [CallClient (str (trim (input w)))]).
Proof.
  intros Hidle Hdraft. unfold handleSend. rewrite Hidle.
  by destruct (trim (input w)).
Qed.

Lemma run_cons w ev evs :
  (run w (ev :: evs)).1 = (run (step w ev).1 evs).1.
Proof.
  simpl. destruct (step w ev) as [w1 e1]; simpl. by destruct (run w1 evs).
Qed.

Local Ltac nothing_new :=
  exists []; split; [by rewrite app_nil_r | simpl; lia].

Lemma step_appends w ev :
  exists new, messages (step w ev).1 = messages w ++ new
              /\ (length new <= 1)%nat.
Proof.
  destruct ev as [| |s|now ts|k r now ts]; simpl; try nothing_new.
  - unfold handleSend. destruct (negb _ || _)%bool; simpl; [nothing_new|].
    eexists; split; [reflexivity | simpl; lia].
  - destruct (pending w !! k); [|nothing_new].
    destruct r; simpl; [|nothing_new].
    eexists; split; [reflexivity | simpl; lia].
Qed.

Lemma run_appends evs : forall w,
  exists new, messages (run w evs).1 = messages w ++ new.
Proof.
  induction evs as [|ev evs IH]; intros w.
  - exists []. by rewrite app_nil_r.
  - rewrite run_cons. destruct (IH (step w ev).1) as [new2 ->].
    destruct (step_appends w ev) as (new1 & -> & _).
    exists (new1 ++ new2). by rewrite app_assoc.
Qed.

Lemma reachable_run t0 evs : forall w,
  reachable t0 w -> reachable t0 (run w evs).1.
Proof.
  induction evs as [|ev evs IH]; intros w Hw; [done|].
  rewrite run_cons. apply IH. by constructor.
Qed.

Lemma step_one_round_trip w ev :
  one_round_trip w -> one_round_trip (step w ev).1.
Proof.
  unfold one_round_trip. intros Hw.
  destruct ev as [| |s|now ts|k r now ts]; simpl; try done.
  - unfold handleSend. destruct (negb _) eqn:Hdraft; simpl; [done|].
    destruct (isLoading w) eqn:Hbusy; simpl; [by rewrite Hbusy|].
    rewrite length_app, Hw. done.
  - destruct (pending w !! k) as [u|] eqn:Hk; [|done].
    apply lookup_lt_Some in Hk. revert Hw.
    destruct (isLoading w); [|lia].
    destruct (pending w) as [|u1 [|u2 p]]; simpl in *; try lia.
    intros _. assert (k = 0)%nat as -> by lia. by destruct r.
Qed.

Lemma reachable_one_round_trip t0 w : reachable t0 w -> one_round_trip w.
Proof.
  induction 1 as [|w ev _ IH]; [done|]. by apply step_one_round_trip.
Qed.

(** While busy, nothing but a settlement changes the log. *)
Lemma busy_step w ev :
  isLoading w = true -> is_settle ev = false ->
  messages (step w ev).1 = messages w
  /\ isLoading (step w ev).1 = true
  /\ pending (step w ev).1 = pending w.
Proof.
  intros Hbusy Hev. destruct ev; try done; simpl.
  by rewrite handleSend_blocked by by left.
Qed.

Lemma busy_run evs : forall w,
  isLoading w = true -> forallb (fun ev => negb (is_settle ev)) evs = true ->
  messages (run w evs).1 = messages w
  /\ isLoading (run w evs).1 = true
  /\ pending (run w evs).1 = pending w.
Proof.
  induction evs as [|ev evs IH]; intros w Hbusy Hevs; [done|].
  simpl in Hevs. apply andb_true_iff in Hevs as [Hev Hevs].
  apply negb_true_iff in Hev.
  destruct (busy_step w ev Hbusy Hev) as (Hm & Hb & Hp).
  rewrite run_cons. destruct (IH _ Hb Hevs) as (-> & -> & ->). done.
Qed.

Lemma arrive_fulfilled apiKey net now ts w u p v :
  pending w = u :: p ->
  (getAIResponse apiKey net u).1 = Fulfilled v ->
  (arrive apiKey net 0 now ts w).1
  = setIsLoading false
      (appendMessage {| id := toString (now + 1); role := assistant;
                        content := v; timestamp := ts |}
         (setPending p w)).
Proof.
  intros Hp Hv. unfold arrive. rewrite Hp; simpl.
  destruct (getAIResponse apiKey net u) as [r eff]; simpl in Hv; subst r.
  simpl. by rewrite Hp.
Qed.

(** C1: in a reachable state that is not busy and whose draft is not empty
    once trimmed, [handleSend] appends one user message holding the
    trimmed draft, clears the draft, sets the busy flag and calls the
    client with the trimmed text; whatever the widget does next short of
    the settlement leaves the log as it is; and when the call settles,
    with whatever [getAIResponse] returns for any credential and any
    network outcome, one assistant message holding that value is appended
    and the flag is cleared: two messages more than before, no more and
    no fewer. *)
Theorem submit_appends_two t0 apiKey w now ts :
  reachable t0 w ->
  isLoading w = false ->
  trim (input w) <> [] ->
  let draft := trim (input w) in
  let userMessage :=
    {| id := toString now; role := user; content := str draft;
       timestamp := ts |} in
  let w1 := (step w (Submit now ts)).1 in
  (step w (Submit now ts)).2 = [CallClient (str draft)]
  /\ messages w1 = messages w ++ [userMessage]
  /\ input w1 = []
  /\ isLoading w1 = true
  /\ forall mid net now' ts',
       forallb (fun ev => negb (is_settle ev)) mid = true ->
       let w2 := (run w1 mid).1 in
       let w3 := (arrive apiKey net 0 now' ts' w2).1 in
       messages w2 = messages w1
       /\ exists v,
            (getAIResponse apiKey net draft).1 = Fulfilled v
            /\ messages w3
               = messages w
                 ++ [userMessage;
                     {| id := toString (now' + 1); role := assistant;
                        content := v; timestamp := ts' |}]
            /\ length (messages w3) = (length (messages w) + 2)%nat
            /\ isLoading w3 = false.
Proof.
  intros Hreach Hidle Hdraft draft userMessage w1. subst w1.
  pose proof (reachable_one_round_trip _ _ Hreach) as Hinv.
  unfold one_round_trip in Hinv. rewrite Hidle in Hinv.
  apply nil_length_inv in Hinv.
  cbn [step]. rewrite handleSend_accepted by done. cbn [fst snd].
  rewrite Hinv. do 4 (split; [reflexivity|]).
  intros mid net now' ts' Hmid. cbn [app].
  set (w1 := setPending _ _).
  destruct (busy_run mid w1 eq_refl Hmid) as (Hm & Hb & Hp).
  split; [done|].
  destruct (getAIResponse_fulfilled apiKey net draft) as [v Hv].
  exists v. split; [done|].
  rewrite (arrive_fulfilled apiKey net now' ts' _ draft [] v) by done.
  simpl. rewrite Hm. simpl. rewrite <- app_assoc. simpl.
  repeat split. rewrite length_app. simpl. lia.
Qed.

Lemma submit_appends_two_witness :
  let w := (run (init 0) [UpdateDraft (lit "  How do I study for NEET? ")]).1 in
  reachable 0 w
  /\ isLoading w = false
  /\ trim (input w) <> []
  /\ length (messages (arrive None (Throw (OtherError [])) 0 5 5
                        (step w (Submit 4 4)).1).1) = 3%nat.
Proof.
  intros w.
  assert (Hreach : reachable 0 w) by (apply reachable_run; constructor).
  assert (Hdraft : trim (input w) <> []) by (vm_compute; discriminate).
  split; [exact Hreach|]. split; [reflexivity|]. split; [exact Hdraft|].
  destruct (submit_appends_two 0 None w 4 4 Hreach eq_refl Hdraft)
    as (_ & _ & _ & _ & H).
  destruct (H [] (Throw (OtherError [])) 5 5 eq_refl)
    as (_ & v & _ & _ & Hlen & _).
  exact Hlen.
Defined.

(** C2: while busy, or with a draft that is empty once trimmed,
    [handleSend] returns at once: the state (log, draft, busy flag,
    visibility, pending calls) is unchanged and nothing is called or
    logged. *)
Theorem submit_blocked_is_noop w now ts :
  isLoading w = true \/ trim (input w) = [] ->
  step w (Submit now ts) = (w, []).
Proof. intros H. by apply handleSend_blocked. Qed.

Lemma submit_blocked_is_noop_witness :
  trim (input (setInput (lit "   ") (init 0))) = []
  /\ step (setInput (lit "   ") (init 0)) (Submit 7 7)
     = (setInput (lit "   ") (init 0), []).
Proof.
  split; [reflexivity|].
  apply (submit_blocked_is_noop (setInput (lit "   ") (init 0)) 7 7).
  right. reflexivity.
Defined.

(** C6: when the awaited client call is rejected, the handler clears the
    busy flag, leaves the log, the draft and the visibility as they are,
    and its only effect is one [console.error]; and however the call
    settles, fulfilled or rejected, the busy flag is cleared. *)
Theorem rejection_clears_busy w k u e now ts :
  pending w !! k = Some u ->
  let w' := (step w (Settle k (Rejected e) now ts)).1 in
  isLoading w' = false
  /\ messages w' = messages w
  /\ input w' = input w
  /\ isOpen w' = isOpen w
  /\ (step w (Settle k (Rejected e) now ts)).2
     = [ConsoleError (lit "Error getting AI response:") e]
  /\ forall r, isLoading (step w (Settle k r now ts)).1 = false.
Proof.
  intros Hk. cbn [step]. rewrite Hk. repeat split. by intros [].
Qed.

Lemma rejection_clears_busy_witness :
  let w := (run (init 0) [UpdateDraft (lit "hello"); Submit 4 4]).1 in
  pending w !! 0%nat = Some (lit "hello")
  /\ isLoading w = true
  /\ isLoading (step w (Settle 0 (Rejected (OtherError [])) 9 9)).1 = false
  /\ length (messages (step w (Settle 0 (Rejected (OtherError [])) 9 9)).1)
     = length (messages w).
Proof.
  intros w.
  destruct (rejection_clears_busy w 0 (lit "hello") (OtherError []) 9 9
              eq_refl) as (Hb & Hm & _).
  split; [reflexivity|]. split; [reflexivity|]. split; [exact Hb|].
  by rewrite Hm.
Defined.

(** C7: the ids come from the clock, [Date.now()] for the user message
    and [Date.now() + 1] for the reply. With no credential the reply
    settles in the millisecond of the submit; a submit in the next
    millisecond then takes the id of that reply. *)
Theorem message_ids_collide :
  let w1 := (run (init 0) [UpdateDraft (lit "a"); Submit 1000 1000]).1 in
  let w2 := (arrive None (Throw (OtherError [])) 0 1000 1000 w1).1 in
  let w3 := (run w2 [UpdateDraft (lit "b"); Submit 1001 1001]).1 in
  reachable 0 w3
  /\ map id (messages w3) = [lit "1"; lit "1000"; lit "1001"; lit "1001"]
  /\ map role (messages w3) = [assistant; user; assistant; user]
  /\ ~ NoDup (map id (messages w3)).
Proof.
  intros w1 w2 w3. split; [|split; [reflexivity|split; [reflexivity|]]].
  - apply reachable_run.
    change w2 with (step w1 (Settle 0 (Fulfilled (str no_key_fallback))
                               1000 1000)).1.
    constructor. apply reachable_run. constructor.
  - intros H. change (map id (messages w3))
      with [lit "1"; lit "1000"; lit "1001"; lit "1001"] in H.
    apply NoDup_cons in H as [_ H]. apply NoDup_cons in H as [_ H].
    apply NoDup_cons in H as [H _]. apply H. by left.
Qed.

(** C8: the log starts as the single seeded greeting, an assistant
    message, and in every reachable state that same message is still the
    first element. *)
Theorem greeting_stays_first t0 w :
  reachable t0 w ->
  messages (init t0) = [seed t0]
  /\ role (seed t0) = assistant
  /\ content (seed t0) = str greeting
  /\ exists rest, messages w = seed t0 :: rest.
Proof.
  intros Hreach. do 3 (split; [reflexivity|]).
  induction Hreach as [|w ev _ [rest IH]]; [by exists []|].
  destruct (step_appends w ev) as (new & -> & _).
  exists (rest ++ new). by rewrite IH.
Qed.

Lemma greeting_stays_first_witness :
  let w := (run (init 3) [Open; UpdateDraft (lit "hi"); Submit 4 4;
                          Settle 0 (Fulfilled (str (lit "hello"))) 8 8;
                          Close]).1 in
  reachable 3 w /\ head (messages w) = Some (seed 3).
Proof.
  intros w.
  assert (Hreach : reachable 3 w) by (apply reachable_run; constructor).
  split; [exact Hreach|].
  destruct (greeting_stays_first 3 w Hreach) as (_ & _ & _ & rest & ->).
  reflexivity.
Defined.

(** C9: every handler run leaves the log it found as a prefix of the log
    it leaves, adding at most one message, and so does every sequence of
    them: nothing is removed, reordered or edited, and the length never
    decreases. *)
Theorem log_is_append_only w evs :
  (forall ev, messages w `prefix_of` messages (step w ev).1
              /\ (length (messages (step w ev).1) <= length (messages w) + 1)%nat)
  /\ messages w `prefix_of` messages (run w evs).1
  /\ (length (messages w) <= length (messages (run w evs).1))%nat
  /\ (forall apiKey net k now ts,
        messages w `prefix_of` messages (arrive apiKey net k now ts w).1).
Proof.
  split; [|split; [|split]].
  - intros ev. destruct (step_appends w ev) as (new & -> & Hlen).
    split; [by apply prefix_app_r|]. rewrite length_app. lia.
  - destruct (run_appends evs w) as [new ->]. by apply prefix_app_r.
  - destruct (run_appends evs w) as [new ->]. rewrite length_app. lia.
  - intros apiKey net k now ts. unfold arrive.
    destruct (pending w !! k) as [u|]; [|done].
    destruct (getAIResponse apiKey net u) as [r eff].
    destruct (step_appends w (Settle k r now ts)) as (new & Hnew & _).
    destruct (step w (Settle k r now ts)) as [w' eff']; simpl in *.
    rewrite Hnew. by apply prefix_app_r.
Qed.

(** ** Trimming the draft *)

Lemma trimStart_split s :
  exists l, s = l ++ trimStart s /\ forallb is_white_space l = true.
Proof.
  induction s as [|c s (l & IH & Hl)]; [by exists []|]. simpl.
  destruct (is_white_space c) eqn:Hc; [|by exists []].
  exists (c :: l). simpl. rewrite Hc, Hl. split; [by f_equal|done].
Qed.

Lemma trimStart_head s c :
  head (trimStart s) = Some c -> is_white_space c = false.
Proof.
  induction s as [|d s IH]; [done|]. simpl.
  destruct (is_white_space d) eqn:Hd; [done|]. simpl. by intros [= <-].
Qed.

Lemma trimStart_fixed s :
  (forall c, head s = Some c -> is_white_space c = false) -> trimStart s = s.
Proof. destruct s as [|c s]; [done|]. intros H. simpl. by rewrite H. Qed.

Lemma trimStart_blank s :
  forallb is_white_space s = true -> trimStart s = [].
Proof.
  induction s as [|c s IH]; [done|]. simpl.
  intros [Hc Hs]%andb_true_iff. rewrite Hc. by apply IH.
Qed.

Lemma head_rev {A} (l : list A) : head (rev l) = last l.
Proof.
  induction l as [|a l IH] using rev_ind; [done|].
  by rewrite rev_app_distr, last_snoc.
Qed.

Lemma forallb_rev {A} (f : A -> bool) (l : list A) :
  forallb f (rev l) = forallb f l.
Proof.
  induction l as [|a l IH]; [done|]. simpl.
  rewrite forallb_app, IH. simpl. by rewrite andb_true_r, andb_comm.
Qed.

Lemma trim_split s :
  exists l r, s = l ++ trim s ++ r
    /\ forallb is_white_space l = true
    /\ forallb is_white_space r = true.
Proof.
  destruct (trimStart_split s) as (l & Hs & Hl).
  destruct (trimStart_split (rev (trimStart s))) as (r & Hr & Hrw).
  exists l, (rev r). unfold trim, trimEnd. split; [|split; [done|]].
  - rewrite <- rev_app_distr, <- Hr, rev_involutive. exact Hs.
  - by rewrite forallb_rev.
Qed.

Lemma trim_head s c : head (trim s) = Some c -> is_white_space c = false.
Proof.
  intros Hc. destruct (trimStart_split (rev (trimStart s))) as (r & Hr & _).
  apply (f_equal (@rev _)) in Hr. rewrite rev_involutive, rev_app_distr in Hr.
  fold (trimEnd (trimStart s)) in Hr. fold (trim s) in Hr.
  apply (trimStart_head s). rewrite Hr.
  destruct (trim s); [done|]. exact Hc.
Qed.

Lemma trim_last s c : last (trim s) = Some c -> is_white_space c = false.
Proof.
  unfold trim, trimEnd. rewrite <- head_rev, rev_involutive.
  apply trimStart_head.
Qed.

Lemma trim_fixed s :
  (forall c, head s = Some c -> is_white_space c = false) ->
  (forall c, last s = Some c -> is_white_space c = false) ->
  trim s = s.
Proof.
  intros Hh Hl. unfold trim, trimEnd. rewrite (trimStart_fixed s Hh).
  rewrite trimStart_fixed, rev_involutive; [done|].
  intros c. rewrite head_rev. apply Hl.
Qed.

Lemma trim_idempotent s : trim (trim s) = trim s.
Proof. apply trim_fixed; [apply trim_head | apply trim_last]. Qed.

Lemma trim_blank_iff s :
  trim s = [] <-> forallb is_white_space s = true.
Proof.
  split.
  - intros Ht. destruct (trim_split s) as (l & r & Hs & Hl & Hr).
    rewrite Ht in Hs. rewrite Hs. simpl. by rewrite forallb_app, Hl, Hr.
  - intros Hs. unfold trim. by rewrite (trimStart_blank s Hs).
Qed.

(** ** The send button, the keyboard and the draft *)

Lemma handleSend_guard now ts w :
  handleSend now ts w = (w, []) <-> send_disabled w = true.
Proof.
  unfold handleSend, send_disabled.
  destruct (negb _ || isLoading w)%bool; [done|].
  split; [|done]. intros H. by apply (f_equal snd) in H.
Qed.

(** What a handler run does to the log: nothing, one user message from
    an accepted submit, or one assistant message from a fulfilled call. *)
Lemma step_messages_cases w ev :
  messages (step w ev).1 = messages w
  \/ (exists now ts,
        ev = Submit now ts /\ isLoading w = false /\ trim (input w) <> []
        /\ messages (step w ev).1
           = messages w ++ [{| id := toString now; role := user;
                               content := str (trim (input w));
                               timestamp := ts |}])
  \/ (exists k v now ts u,
        ev = Settle k (Fulfilled v) now ts /\ pending w !! k = Some u
        /\ messages (step w ev).1
           = messages w ++ [{| id := toString (now + 1); role := assistant;
                               content := v; timestamp := ts |}]).
Proof.
  destruct ev as [| |s|now ts|k r now ts]; simpl; try by left.
  - destruct (isLoading w) eqn:Hbusy.
    { left. by rewrite handleSend_blocked by by left. }
    destruct (trim (input w)) as [|c d] eqn:Hdraft.
    { left. by rewrite handleSend_blocked by by right. }
    right; left. exists now, ts. rewrite <- Hdraft.
    rewrite handleSend_accepted by (by rewrite ?Hdraft). by rewrite Hdraft.
  - destruct (pending w !! k) as [u|] eqn:Hk; [|by left].
    destruct r as [v|e]; [|by left].
    right; right. by exists k, v, now, ts, u.
Qed.

(** X1: the send button is disabled exactly in the states in which
    [handleSend] would return without doing anything. *)
Theorem send_button_matches_guard w now ts :
  send_disabled w = true <-> step w (Submit now ts) = (w, []).
Proof. symmetry. apply handleSend_guard. Qed.

(** X2: a key press changes something only when the key is Enter, Shift
    is not held and the send button is enabled; it then does what a click
    on the send button does and suppresses the key's default action. *)
Theorem keypress_acts_iff e now ts w :
  ((handleKeyPress e now ts w).2 <> (w, [])
   <-> e_key e = lit "Enter" /\ shiftKey e = false /\ send_disabled w = false)
  /\ ((handleKeyPress e now ts w).2 <> (w, []) ->
      handleKeyPress e now ts w = (true, step w (Submit now ts))).
Proof.
  unfold handleKeyPress. cbn [step].
  destruct (bool_decide_reflect (e_key e = lit "Enter")) as [Hk|Hk];
    destruct (shiftKey e); cbn [andb negb fst snd];
    try (split; [split; [done | by intros (? & ? & ?)] | done]).
  split; [|done]. rewrite handleSend_guard.
  destruct (send_disabled w); split; try done. by intros (_ & _ & ?).
Qed.

(** X3: on an idle widget a submit is ignored exactly when every code
    unit of the draft is white space (the empty draft included). *)
Theorem blank_draft_iff w now ts :
  isLoading w = false ->
  step w (Submit now ts) = (w, [])
  <-> forallb is_white_space (input w) = true.
Proof.
  intros Hidle. cbn [step]. rewrite handleSend_guard, <- trim_blank_iff.
  unfold send_disabled. rewrite Hidle, orb_false_r. simpl.
  rewrite negb_involutive. apply bool_decide_eq_true.
Qed.

Lemma blank_draft_iff_witness :
  let w := setInput ([9; 160; 8232; 32]%N) (init 0) in
  isLoading w = false /\ step w (Submit 5 5) = (w, []).
Proof.
  intros w. split; [reflexivity|].
  apply (blank_draft_iff w 5 5); reflexivity.
Defined.

(** X4: an accepted submit stores the draft without its leading and
    trailing white space and nothing else removed: the draft is white
    space, then the stored text, then white space, and the stored text is
    not empty and neither starts nor ends with white space. *)
Theorem submit_stores_trimmed w now ts :
  isLoading w = false ->
  trim (input w) <> [] ->
  exists c l r,
    last (messages (step w (Submit now ts)).1)
    = Some {| id := toString now; role := user; content := str c;
              timestamp := ts |}
    /\ input w = l ++ c ++ r
    /\ forallb is_white_space l = true
    /\ forallb is_white_space r = true
    /\ c <> []
    /\ (forall x, head c = Some x -> is_white_space x = false)
    /\ (forall x, last c = Some x -> is_white_space x = false).
Proof.
  intros Hidle Hdraft.
  destruct (trim_split (input w)) as (l & r & Hs & Hl & Hr).
  exists (trim (input w)), l, r. cbn [step].
  rewrite handleSend_accepted by done. cbn [fst messages setPending
    setIsLoading setInput appendMessage]. rewrite last_snoc.
  repeat split; try done; [apply trim_head | apply trim_last].
Qed.

Lemma submit_stores_trimmed_witness :
  let w := setInput (lit "  what is pH?  ") (init 0) in
  isLoading w = false
  /\ trim (input w) <> []
  /\ content <$> last (messages (step w (Submit 5 5)).1)
     = Some (str (lit "what is pH?")).
Proof.
  intros w.
  assert (Hd : trim (input w) <> []) by (vm_compute; discriminate).
  split; [reflexivity|]. split; [exact Hd|].
  destruct (submit_stores_trimmed w 5 5 eq_refl Hd) as (c & l & r & _).
  reflexivity.
Defined.

(** X5: in every reachable state each user message of the log holds a
    non-empty string that trimming would not change. *)
Theorem user_messages_are_trimmed t0 w :
  reachable t0 w ->
  Forall (fun m => role m = user ->
                   exists c, content m = str c /\ c <> [] /\ trim c = c)
         (messages w).
Proof.
  induction 1 as [|w ev _ IH].
  - by repeat constructor.
  - destruct (step_messages_cases w ev)
      as [-> | [(now & ts & _ & _ & Hd & ->) | (k & v & now & ts & u & _ & _ & ->)]];
      [done| |]; apply Forall_app; (split; [done|]); repeat constructor.
    + intros _. exists (trim (input w)). by rewrite trim_idempotent.
    + done.
Qed.

Lemma user_messages_are_trimmed_witness :
  let w := (run (init 0) [UpdateDraft (lit " hi "); Submit 5 5]).1 in
  reachable 0 w
  /\ Forall (fun m => role m = user ->
                      exists c, content m = str c /\ c <> [] /\ trim c = c)
            (messages w).
Proof.
  intros w.
  assert (Hreach : reachable 0 w) by (apply reachable_run; constructor).
  split; [exact Hreach|]. exact (user_messages_are_trimmed 0 w Hreach).
Defined.

(** ** More on the generation client *)

Lemma try_block_cases net :
  (exists e, try_block net = Throw e
     /\ (net = Throw e
         \/ (exists st, net = Ok {| status := st; json_body := Throw e |})
         \/ (exists st, net = Ok {| status := st; json_body := Ok JNull |})))
  \/ (exists st data,
        net = Ok {| status := st; json_body := Ok data |} /\ data <> JNull
        /\ try_block net
           = Ok (if truthy (value_at text_path (Some data))
                 then value_at text_path (Some data)
                 else str trouble_fallback)).
Proof.
  destruct net as [[st [data|e]]|e].
  - destruct (json_null_dec data) as [->|Hdata].
    + left. eexists. split; [apply try_block_null|]. eauto.
    + right. exists st, data. by rewrite try_block_decoded.
  - left. exists e. split; [done|]. eauto.
  - left. exists e. split; [done|]. eauto.
Qed.

Lemma getAIResponse_reply apiKey net userMessage :
  exists v,
    (getAIResponse apiKey net userMessage).1 = Fulfilled v
    /\ truthy v = true
    /\ (v = str no_key_fallback \/ v = str trouble_fallback
        \/ v = str technical_fallback
        \/ exists st data,
             net = Ok {| status := st; json_body := Ok data |}
             /\ v = value_at text_path (Some data)).
Proof.
  unfold getAIResponse. destruct (key_configured apiKey); cbn [negb].
  - destruct (try_block_cases net)
      as [(e & -> & _) | (st & data & Hnet & _ & ->)]; cbn [fst].
    + eexists. split; [done|]. split; [done|]. auto.
    + destruct (truthy (value_at _ _)) eqn:Hv; eexists;
        (split; [done|]); (split; [done|]); [|by auto].
      right; right; right. by exists st, data.
  - eexists. split; [done|]. split; [done|]. auto.
Qed.

(** X6: whatever the credential, the network outcome and the question,
    the reply of [getAIResponse] is truthy, so never empty or missing: it
    is one of the three fixed strings or the value found at
    [candidates[0].content.parts[0].text] of the decoded body. *)
Theorem reply_is_never_empty apiKey net userMessage :
  exists v,
    (getAIResponse apiKey net userMessage).1 = Fulfilled v
    /\ truthy v = true
    /\ (v = str no_key_fallback \/ v = str trouble_fallback
        \/ v = str technical_fallback
        \/ exists st data,
             net = Ok {| status := st; json_body := Ok data |}
             /\ v = value_at text_path (Some data)).
Proof. apply getAIResponse_reply. Qed.

(** X7: [getAIResponse] writes to the console exactly when a credential
    is configured and [fetch] rejects, the body does not parse, or the
    body parses to [null]; it then logs the error it caught under the
    label of the gateway call. *)
Theorem console_error_iff apiKey net userMessage :
  (exists e, ConsoleError (lit "Error calling Gemini API:") e
             ∈ (getAIResponse apiKey net userMessage).2)
  <-> key_configured apiKey = true
      /\ ((exists e, net = Throw e)
          \/ (exists st e, net = Ok {| status := st; json_body := Throw e |})
          \/ (exists st, net = Ok {| status := st; json_body := Ok JNull |})).
Proof.
  unfold getAIResponse. destruct (key_configured apiKey); cbn [negb].
  - destruct (try_block_cases net)
      as [(e & -> & Hnet) | (st & data & -> & Hdata & ->)]; cbn [snd].
    + split.
      * intros _. split; [done|].
        destruct Hnet as [-> | [[st ->] | [st ->]]]; eauto.
      * intros _. exists e. rewrite !elem_of_cons. auto.
    + split.
      * intros [e He]. rewrite list_elem_of_singleton in He. done.
      * intros (_ & [[e [=]] | [(st' & e & [=]) | (st' & [= _ ->])]]). done.
  - cbn [snd]. split; [|by intros [? _]].
    intros [e He]. by apply elem_of_nil in He.
Qed.

(** X8: one call of [getAIResponse] issues no request without a
    credential and exactly one with it, whatever comes back: there is no
    retry. *)
Theorem one_request_per_call apiKey net userMessage :
  requests (getAIResponse apiKey net userMessage).2
  = if key_configured apiKey
    then [gemini_request (default [] apiKey) userMessage]
    else [].
Proof.
  unfold getAIResponse. destruct (key_configured apiKey); cbn [negb]; [|done].
  by destruct (try_block net).
Qed.



(** X10: the text of the reply is not checked to be a string: any truthy
    value at [candidates[0].content.parts[0].text], a number, [true], an
    array or an object as well, is returned as the reply. *)
Theorem truthy_value_passes apiKey userMessage st data v :
  key_configured apiKey = true ->
  value_at text_path (Some data) = v ->
  truthy v = true ->
  (getAIResponse apiKey (Ok {| status := st; json_body := Ok data |})
     userMessage).1 = Fulfilled v.
Proof.
  intros Hkey Hv Ht. unfold getAIResponse. rewrite Hkey. cbn [negb].
  destruct (json_null_dec data) as [->|Hdata].
  { by rewrite <- Hv in Ht. }
  rewrite try_block_decoded by done. by rewrite Hv, Ht.
Qed.

Lemma truthy_value_passes_witness :
  let five := JNumber (S754_finite false 5 0) in
  let data := JObject [(lit "candidates",
                JArray [JObject [(lit "content",
                  JObject [(lit "parts",
                    JArray [JObject [(lit "text", five)]])])]])] in
  key_configured (Some (lit "key")) = true
  /\ value_at text_path (Some data) = Some five
  /\ truthy (Some five) = true
  /\ (getAIResponse (Some (lit "key"))
        (Ok {| status := 200; json_body := Ok data |}) (lit "2+3?")).1
     = Fulfilled (Some five).
Proof.
  intros five data. do 3 (split; [reflexivity|]).
  apply (truthy_value_passes (Some (lit "key")) (lit "2+3?") 200%N data
           (Some five)); reflexivity.
Defined.

(** ** Visibility, calls and the busy flag *)

Lemma run_step w ev evs :
  run w (ev :: evs)
  = ((run (step w ev).1 evs).1, (step w ev).2 ++ (run (step w ev).1 evs).2).
Proof.
  simpl. destruct (step w ev) as [w1 e1]; simpl. by destruct (run w1 evs).
Qed.

Lemma step_setIsOpen b w ev :
  is_visibility ev = false ->
  step (setIsOpen b w) ev = (setIsOpen b (step w ev).1, (step w ev).2).
Proof.
  destruct ev as [| |s|now ts|k r now ts]; try done; intros _; simpl.
  - unfold handleSend; simpl. by destruct (negb _ || isLoading w)%bool.
  - destruct (pending w !! k); [|done]. by destruct r.
Qed.

Lemma run_setIsOpen evs : forall b w,
  run (setIsOpen b w) evs
  = (setIsOpen (visibility_after b evs)
       (run w (filter (fun ev => is_visibility ev = false) evs)).1,
     (run w (filter (fun ev => is_visibility ev = false) evs)).2).
Proof.
  induction evs as [|ev evs IH]; intros b w; [done|].
  rewrite run_step. destruct (is_visibility ev) eqn:Hev.
  - rewrite filter_cons_False by by rewrite Hev.
    destruct ev; try done; simpl.
    + change (setIsOpen true (setIsOpen b w)) with (setIsOpen true w).
      by rewrite IH.
    + change (setIsOpen false (setIsOpen b w)) with (setIsOpen false w).
      by rewrite IH.
  - rewrite filter_cons_True by done. rewrite run_step.
    rewrite step_setIsOpen by done. cbn [fst snd]. rewrite IH.
    by destruct ev.
Qed.

(** X11: opening and closing the window never touches the conversation:
    a trace leaves the log, the draft, the busy flag, the pending calls
    and the effects it would leave with every open and close removed from
    it, and the visibility that its last open or close sets. *)
Theorem visibility_does_not_interfere w evs :
  run w evs
  = (setIsOpen (visibility_after (isOpen w) evs)
       (run w (filter (fun ev => is_visibility ev = false) evs)).1,
     (run w (filter (fun ev => is_visibility ev = false) evs)).2).
Proof. rewrite <- run_setIsOpen. by destruct w. Qed.

Lemma user_texts_snoc ms m :
  user_texts (ms ++ [m])
  = user_texts ms ++ (if decide (role m = user) then [content m] else []).
Proof.
  unfold user_texts. rewrite filter_app, fmap_app. f_equal.
  rewrite filter_cons, filter_nil. by destruct (decide _).
Qed.

Lemma step_calls w ev :
  user_texts (messages (step w ev).1)
  = user_texts (messages w) ++ calls (step w ev).2.
Proof.
  destruct ev as [| |s|now ts|k r now ts]; simpl; rewrite ?app_nil_r; try done.
  - unfold handleSend. destruct (negb _ || isLoading w)%bool; simpl.
    + by rewrite app_nil_r.
    + by rewrite user_texts_snoc.
  - destruct (pending w !! k); simpl; [|by rewrite app_nil_r].
    destruct r; simpl; rewrite ?user_texts_snoc; simpl; by rewrite app_nil_r.
Qed.

(** X12: every user message of the log was sent to the client once, in
    the order of the log and with the very text the log shows: the user
    messages a trace adds are the arguments of the client calls it
    makes. *)
Theorem calls_match_user_messages evs : forall w,
  user_texts (messages (run w evs).1)
  = user_texts (messages w) ++ calls (run w evs).2.
Proof.
  induction evs as [|ev evs IH]; intros w.
  - simpl. by rewrite app_nil_r.
  - rewrite run_step. cbn [fst snd]. rewrite IH, step_calls.
    unfold calls. by rewrite omap_app, app_assoc.
Qed.

Lemma busy_awaits_last t0 w :
  reachable t0 w ->
  if isLoading w
  then exists c m, pending w = [c] /\ last (messages w) = Some m
                   /\ role m = user /\ content m = str c
  else pending w = [].
Proof.
  induction 1 as [|w ev _ IH]; [done|].
  destruct ev as [| |s|now ts|k r now ts]; simpl; try done.
  - destruct (isLoading w) eqn:Hbusy.
    { rewrite handleSend_blocked by by left. simpl. by rewrite Hbusy. }
    destruct (trim (input w)) as [|c d] eqn:Hdraft.
    { rewrite handleSend_blocked by by right. simpl. by rewrite Hbusy. }
    rewrite handleSend_accepted by (by rewrite ?Hdraft). simpl.
    rewrite IH, last_snoc, Hdraft. by eexists _, _.
  - destruct (pending w !! k) as [u|] eqn:Hk; [|done].
    destruct (isLoading w) eqn:Hbusy; [|by rewrite IH in Hk].
    destruct IH as (c & m & Hp & _). rewrite Hp in Hk |- *.
    destruct k; [|done]. by destruct r.
Qed.

(** X13: in every reachable state the widget is busy exactly while a
    call is pending; there is then one pending call, and its argument is
    the content of the last message of the log, a user message. *)
Theorem busy_awaits_last_message t0 w :
  reachable t0 w ->
  (isLoading w = true ->
   exists c m, pending w = [c] /\ last (messages w) = Some m
               /\ role m = user /\ content m = str c)
  /\ (isLoading w = false -> pending w = []).
Proof.
  intros Hreach. pose proof (busy_awaits_last t0 w Hreach) as H.
  by destruct (isLoading w).
Qed.

Lemma busy_awaits_last_message_witness :
  let w := (run (init 0) [UpdateDraft (lit "hello"); Submit 4 4; Close]).1 in
  reachable 0 w /\ isLoading w = true /\ pending w = [lit "hello"].
Proof.
  intros w.
  assert (Hreach : reachable 0 w) by (apply reachable_run; constructor).
  split; [exact Hreach|]. split; [reflexivity|].
  destruct (busy_awaits_last_message 0 w Hreach) as [H _].
  destruct (H eq_refl) as (c & m & Hp & _). reflexivity.
Defined.

(** ** The widget with its client *)

Lemma client_effects apiKey net u :
  exists v eff,
    getAIResponse apiKey net u = (Fulfilled v, eff)
    /\ truthy v = true
    /\ forall e, ConsoleError (lit "Error getting AI response:") e ∉ eff.
Proof.
  destruct (getAIResponse_reply apiKey net u) as (v & Hv & Ht & _).
  destruct (getAIResponse apiKey net u) as [r eff] eqn:Hrun.
  cbn [fst] in Hv. subst r. exists v, eff. split; [done|]. split; [done|].
  intros e. unfold getAIResponse in Hrun.
  destruct (key_configured apiKey); cbn [negb] in Hrun.
  - destruct (try_block net); apply (f_equal snd) in Hrun;
      cbn [snd] in Hrun; subst eff;
      rewrite ?elem_of_cons, elem_of_nil; intros H;
      repeat destruct H as [H|H]; done.
  - apply (f_equal snd) in Hrun. cbn [snd] in Hrun. subst eff.
    apply not_elem_of_nil.
Qed.

Lemma arrive_as_step apiKey net k now ts w :
  exists v eff,
    truthy v = true
    /\ arrive apiKey net k now ts w
       = ((step w (Settle k (Fulfilled v) now ts)).1, eff)
    /\ forall e, ConsoleError (lit "Error getting AI response:") e ∉ eff.
Proof.
  unfold arrive. cbn [step]. destruct (pending w !! k) as [u|].
  - destruct (client_effects apiKey net u) as (v & eff & -> & Ht & He).
    exists v, eff. split; [done|]. cbn [handleSend_settled fst].
    by rewrite app_nil_r.
  - exists (str no_key_fallback), []. split; [done|]. split; [done|].
    intros e'. apply not_elem_of_nil.
Qed.

Lemma client_reachable_reachable apiKey t0 w :
  client_reachable apiKey t0 w -> reachable t0 w.
Proof.
  induction 1 as [|w ev _ IH _|w net k now ts _ IH]; [constructor| |].
  - by constructor.
  - destruct (arrive_as_step apiKey net k now ts w) as (v & eff & _ & -> & _).
    by constructor.
Qed.

Lemma client_reachable_run apiKey t0 evs : forall w,
  client_reachable apiKey t0 w ->
  forallb (fun ev => negb (is_settle ev)) evs = true ->
  client_reachable apiKey t0 (run w evs).1.
Proof.
  induction evs as [|ev evs IH]; intros w Hw Hevs; [done|].
  simpl in Hevs. apply andb_true_iff in Hevs as [Hev Hevs].
  rewrite run_cons. apply IH; [|done].
  constructor; [done|]. by apply negb_true_iff.
Qed.

Lemma turns_succ n : turns n ++ [user; assistant] = turns (S n).
Proof.
  unfold turns. rewrite <- app_comm_cons. f_equal.
  induction n as [|n IH]; [done|]. simpl in *. by rewrite IH.
Qed.

(** X14: with [getAIResponse] as the client the log is the greeting
    followed by completed exchanges, a user message and then its reply,
    and by one more user message exactly while the widget is busy. *)
Theorem conversation_alternates apiKey t0 w :
  client_reachable apiKey t0 w ->
  exists n,
    map role (messages w)
    = turns n ++ (if isLoading w then [user] else []).
Proof.
  induction 1 as [|w ev Hw [n IH] Hev|w net k now ts Hw [n IH]].
  - by exists 0%nat.
  - destruct ev as [| |s|now ts|k r now ts]; try done; simpl;
      try by exists n.
    destruct (isLoading w) eqn:Hbusy.
    { rewrite handleSend_blocked by by left. exists n. simpl.
      by rewrite Hbusy. }
    destruct (trim (input w)) as [|c d] eqn:Hdraft.
    { rewrite handleSend_blocked by by right. exists n. simpl.
      by rewrite Hbusy. }
    rewrite handleSend_accepted by (by rewrite ?Hdraft). exists n. simpl.
    rewrite map_app, IH, app_nil_r. reflexivity.
  - destruct (arrive_as_step apiKey net k now ts w) as (v & eff & _ & -> & _).
    cbn [fst step]. destruct (pending w !! k) as [u|] eqn:Hk; [|by exists n].
    pose proof (reachable_one_round_trip t0 w
                  (client_reachable_reachable _ _ _ Hw)) as Hone.
    unfold one_round_trip in Hone. apply lookup_lt_Some in Hk.
    destruct (isLoading w); [|lia].
    exists (S n). rewrite <- turns_succ.
    cbn [handleSend_settled fst messages isLoading setIsLoading
         appendMessage setPending].
    by rewrite map_app, IH, <- app_assoc, app_nil_r.
Qed.

Lemma conversation_alternates_witness :
  let w := (arrive None (Throw (OtherError [])) 0 5 5
              (run (init 0) [UpdateDraft (lit "hi"); Submit 4 4]).1).1 in
  client_reachable None 0 w
  /\ map role (messages w) = [assistant; user; assistant].
Proof.
  intros w.
  assert (Hreach : client_reachable None 0 w).
  { apply creach_arrive. apply client_reachable_run; [constructor|done]. }
  split; [exact Hreach|].
  destruct (conversation_alternates None 0 w Hreach) as [n Hn].
  reflexivity.
Defined.

(** X15: with [getAIResponse] as the client no message of the log is
    empty: every content is truthy. *)
Theorem no_empty_message apiKey t0 w :
  client_reachable apiKey t0 w ->
  Forall (fun m => truthy (content m) = true) (messages w).
Proof.
  assert (Hstep : forall w ev,
            Forall (fun m => truthy (content m) = true) (messages w) ->
            (forall k v now ts, ev = Settle k (Fulfilled v) now ts ->
                                truthy v = true) ->
            Forall (fun m => truthy (content m) = true)
                   (messages (step w ev).1)).
  { intros w' ev IH Hv. destruct (step_messages_cases w' ev)
      as [-> | [(now & ts & _ & _ & Hd & ->)
               | (k & v & now & ts & u & -> & _ & ->)]]; [done| |];
      apply Forall_app; (split; [done|]); repeat constructor; simpl.
    - by destruct (trim (input w')).
    - by eapply Hv. }
  induction 1 as [|w ev _ IH Hev|w net k now ts _ IH].
  - by repeat constructor.
  - apply Hstep; [done|]. by intros k v now ts ->.
  - destruct (arrive_as_step apiKey net k now ts w) as (v & eff & Hv & -> & _).
    apply Hstep; [done|]. by intros ? ? ? ? [= _ <- _ _].
Qed.

Lemma no_empty_message_witness :
  let w := (arrive (Some (lit "key"))
              (Ok {| status := 200; json_body := Ok (JObject []) |}) 0 5 5
              (run (init 0) [UpdateDraft (lit "hi"); Submit 4 4]).1).1 in
  client_reachable (Some (lit "key")) 0 w
  /\ Forall (fun m => truthy (content m) = true) (messages w).
Proof.
  intros w.
  assert (Hreach : client_reachable (Some (lit "key")) 0 w).
  { apply creach_arrive. apply client_reachable_run; [constructor|done]. }
  split; [exact Hreach|].
  exact (no_empty_message (Some (lit "key")) 0 w Hreach).
Defined.

(** X16: with [getAIResponse] as the client the [catch] block of
    [handleSend] never runs: no settlement logs under its label. *)
Theorem handler_catch_is_dead apiKey net k now ts w e :
  ConsoleError (lit "Error getting AI response:") e
  ∉ (arrive apiKey net k now ts w).2.
Proof.
  destruct (arrive_as_step apiKey net k now ts w) as (v & eff & _ & -> & H).
  apply H.
Qed.

(** ** Ids and the clock *)

Lemma lit_inj s1 s2 : lit s1 = lit s2 -> s1 = s2.
Proof.
  unfold lit. intros H.
  rewrite <- (string_of_list_ascii_of_string s1),
          <- (string_of_list_ascii_of_string s2).
  f_equal. revert H.
  generalize (list_ascii_of_string s1), (list_ascii_of_string s2).
  induction l as [|a l IH]; intros [|b l'] H; try done.
  injection H as Hab Hl. f_equal; [|by apply IH].
  by rewrite <- (ascii_N_embedding a), <- (ascii_N_embedding b), Hab.
Qed.

Lemma toString_inj n m : toString n = toString m -> n = m.
Proof. intros H. apply lit_inj in H. by apply (inj pretty) in H. Qed.

Lemma ids_stay_fresh evs : forall bound w,
  Forall (fun m => exists n, id m = toString n /\ n <= bound) (messages w) ->
  NoDup (map id (messages w)) ->
  fresh_clock bound evs = true ->
  NoDup (map id (messages (run w evs).1)).
Proof.
  assert (Hsnoc : forall bound n ms m,
            Forall (fun m => exists n, id m = toString n /\ n <= bound) ms ->
            NoDup (map id ms) -> bound < n -> id m = toString n ->
            Forall (fun m => exists k, id m = toString k /\ k <= n) (ms ++ [m])
            /\ NoDup (map id (ms ++ [m]))).
  { intros bound n ms m Hb Hnd Hn Hm. split.
    - apply Forall_app. split; [|repeat constructor; exists n; split; [done|lia]].
      eapply Forall_impl; [exact Hb|]. intros x (k & ? & ?). exists k.
      split; [done|lia].
    - rewrite map_app. apply NoDup_app. split; [done|].
      split; [|apply NoDup_singleton].
      intros i Hi. cbn [map]. rewrite list_elem_of_singleton. intros ->.
      apply list_elem_of_fmap in Hi as (x & Hx & Hin).
      rewrite Forall_forall in Hb. destruct (Hb x Hin) as (k & Hk & Hle).
      rewrite Hm, Hk in Hx. apply toString_inj in Hx. lia. }
  assert (Hmono : forall bound n ms,
            Forall (fun m => exists n, id m = toString n /\ n <= bound) ms ->
            bound <= n ->
            Forall (fun m => exists k, id m = toString k /\ k <= n) ms).
  { intros bound n ms Hb Hn. eapply Forall_impl; [exact Hb|].
    intros x (k & ? & ?). exists k. split; [done|lia]. }
  induction evs as [|ev evs IH]; intros bound w Hb Hnd Hfresh; [done|].
  rewrite run_cons.
  destruct ev as [| |s|now ts|k r now ts]; cbn [fresh_clock] in Hfresh;
    try (by apply (IH bound)).
  - apply andb_true_iff in Hfresh as [Hnow Hfresh]. apply Z.ltb_lt in Hnow.
    assert (Hnew : Forall (fun m => exists n, id m = toString n /\ n <= now)
                     (messages (step w (Submit now ts)).1)
                   /\ NoDup (map id (messages (step w (Submit now ts)).1))).
    { destruct (step_messages_cases w (Submit now ts))
        as [Heq | [(now' & ts' & Hev & _ & _ & Heq)
                  | (? & ? & ? & ? & ? & Hev & _)]];
        [rewrite Heq| rewrite Heq |discriminate Hev].
      - split; [apply (Hmono bound); [done|lia] | done].
      - injection Hev as <- <-. by apply (Hsnoc bound now). }
    destruct Hnew. by apply (IH now).
  - apply andb_true_iff in Hfresh as [Hnow Hfresh]. apply Z.leb_le in Hnow.
    assert (Hnew : Forall (fun m => exists n, id m = toString n /\ n <= now + 1)
                     (messages (step w (Settle k r now ts)).1)
                   /\ NoDup (map id (messages (step w (Settle k r now ts)).1))).
    { destruct (step_messages_cases w (Settle k r now ts))
        as [Heq | [(? & ? & Hev & _)
                  | (k' & v & now' & ts' & u & Hev & _ & Heq)]];
        [rewrite Heq|discriminate Hev|rewrite Heq].
      - split; [apply (Hmono bound); [done|lia] | done].
      - injection Hev as _ _ <- <-.
        apply (Hsnoc bound (now + 1)); [done|done|lia|done]. }
    destruct Hnew. by apply (IH (now + 1)).
Qed.

(** X17: the ids of the log are pairwise distinct whenever every clock
    reading of the trace yields an id above all ids given before: a
    submit reads a [Date.now()] greater than the largest id so far, and a
    settlement one not below it. *)
Theorem ids_unique_under_fresh_clock t0 evs :
  fresh_clock 1 evs = true ->
  NoDup (map id (messages (run (init t0) evs).1)).
Proof.
  apply ids_stay_fresh.
  - repeat constructor. exists 1. split; [reflexivity|lia].
  - apply NoDup_singleton.
Qed.

Lemma ids_unique_under_fresh_clock_witness :
  let evs := [UpdateDraft (lit "a"); Submit 1000 1000;
              Settle 0 (Fulfilled (str (lit "b"))) 1000 1000;
              UpdateDraft (lit "c"); Submit 1002 1002] in
  fresh_clock 1 evs = true
  /\ NoDup (map id (messages (run (init 0) evs).1)).
Proof.
  intros evs. split; [reflexivity|].
  apply (ids_unique_under_fresh_clock 0 evs). reflexivity.
Defined.

(** ** The navigation bar *)

(** X18: the mobile menu is closed after a tap on one of its links and
    flips with every tap on the menu button: after a trace of its
    handlers it is open exactly when the number of toggles since the last
    such link (or since the start, counted from the initial state) is
    odd. *)
Theorem menu_open_iff_odd_toggles evs : forall isMenuOpen,
  Navbar.run isMenuOpen evs
  = let '(n, linked) := Navbar.toggles_since_link evs in
    if linked then Nat.odd n else xorb isMenuOpen (Nat.odd n).
Proof.
  unfold Navbar.run.
  induction evs as [|ev evs IH]; intros b; simpl.
  - by destruct b.
  - rewrite IH. destruct (Navbar.toggles_since_link evs) as [n linked].
    destruct ev, linked; simpl; try done.
    rewrite Nat.odd_succ, <- Nat.negb_odd. by destruct b, (Nat.odd n).
Qed.

(** ** The draft while busy *)

(** X19: when the draft is edited through the text input only, which is
    disabled while the widget is busy, the draft is empty as long as the
    widget is busy: the cleared input box stays empty until the reply (or
    the failure) has arrived. *)
Theorem draft_empty_while_busy t0 w :
  ui_reachable t0 w -> isLoading w = true -> input w = [].
Proof.
  induction 1 as [|w ev _ IH Hui]; [done|].
  destruct ev as [| |s|now ts|k r now ts]; simpl; try done.
  - intros Hbusy. pose proof (Hui s eq_refl) as Hen.
    unfold input_disabled in Hen. by rewrite Hen in Hbusy.
  - unfold handleSend. by destruct (negb _ || isLoading w)%bool eqn:Hg.
  - destruct (pending w !! k); [|done]. by destruct r.
Qed.

Lemma draft_empty_while_busy_witness :
  let w := (step (step (init 0) (UpdateDraft (lit "hello"))).1
                 (Submit 4 4)).1 in
  ui_reachable 0 w /\ isLoading w = true /\ input w = [].
Proof.
  intros w.
  assert (Hreach : ui_reachable 0 w).
  { apply ui_step; [|done]. apply ui_step; [constructor|]. by intros s _. }
  split; [exact Hreach|]. split; [reflexivity|].
  exact (draft_empty_while_busy 0 w Hreach eq_refl).
Defined.
